(** * forge-rsx: a shallow embedding of [get_char] (src/lib.rs) and of the
    [rsx!] / [rsx_muncher!] macros (src/rules/mod.rs).

    The macros are modelled after token matching: the content of a tag is a
    list of [rsx_item]s, one per rule of [rsx_muncher!] (attribute, nested
    tag, for loop, braced expression, string literal, stray comma).  Every
    Rust expression the macros format with [format!] (attribute values,
    braced expressions, literals) is represented by the string its [Display]
    implementation produces.  Rust strings are represented as their UTF-8
    bytes ([String.string]): the renderer only tests and replaces ASCII
    substrings, which never occur inside a multi-byte sequence. *)

From Stdlib Require Import String Ascii List Bool ZArith Lia.
Import ListNotations.
Open Scope string_scope.
#[local] Set Warnings "-register-all".

(** ** [get_char] (src/lib.rs) *)

(** A Rust [&str] seen through [s.chars()]: the sequence of its characters.
    The result [None] stands for the panic of [unwrap()]. *)
Definition get_char {char : Type} (s : list char) (index : nat) : option (list char) :=
  if (index =? 0)%nat || (length s <? index)%nat then Some []
  else
    let char_index := index - 1 in
    match nth_error s char_index with
    | Some c => Some [c]
    | None => None
    end.

(** ** Strings *)

Definition dq : ascii := "034"%char.
Definition dq_s : string := String dq EmptyString.
Definition bs_dq : string := String "\"%char dq_s.
Definition nl_s : string := String "010"%char EmptyString.

(** [str::starts_with] *)
Definition starts_with (p s : string) : bool := prefix p s.

(** [str::contains] *)
Fixpoint contains (p s : string) : bool :=
  prefix p s ||
  match s with
  | EmptyString => false
  | String _ s' => contains p s'
  end.

(** [str::replace] for a non-empty pattern [from]: left to right, the
    matches do not overlap; [skip] counts the bytes of the last match still
    to be passed over. *)
Fixpoint replace_go (from to : string) (skip : nat) (s : string) : string :=
  match s with
  | EmptyString => EmptyString
  | String c s' =>
      match skip with
      | S k => replace_go from to k s'
      | O =>
          if prefix from s then to ++ replace_go from to (String.length from - 1) s'
          else String c (replace_go from to 0 s')
      end
  end.

Definition replace (s from to : string) : string := replace_go from to 0 s.

(** [str::trim_matches] on the double-quote character: every leading and
    every trailing double quote. *)
Fixpoint trim_start_dq (l : list ascii) : list ascii :=
  match l with
  | c :: l' => if Ascii.eqb c dq then trim_start_dq l' else l
  | [] => []
  end.

Definition trim_matches_dq (s : string) : string :=
  string_of_list_ascii
    (rev (trim_start_dq (rev (trim_start_dq (list_ascii_of_string s))))).

(** [String::repeat] *)
Fixpoint repeat_str (s : string) (n : nat) : string :=
  match n with
  | O => EmptyString
  | S n' => s ++ repeat_str s n'
  end.

(** ** The terminal rule of [rsx_muncher!] *)

(** One attribute of the attribute loop: [k] is [stringify!] of the key
    token, [v] is [format!("{}", value)]. *)
Definition render_attr (k v : string) : string :=
  let key := trim_matches_dq k in
  let val_str := v in
  if String.eqb val_str "true" then " " ++ key
  else if negb (String.eqb val_str "false") then
    if starts_with ":" key || starts_with "@" key || starts_with "x-" key
       || starts_with "hx-" key || contains dq_s val_str || contains bs_dq val_str
    then
      let clean_v := replace val_str bs_dq dq_s in
      " " ++ key ++ "='" ++ clean_v ++ "'"
    else " " ++ key ++ "=" ++ dq_s ++ val_str ++ dq_s
  else EmptyString.

(** [attr_str]: each attribute pushed in turn. *)
Definition attr_string (attrs : list (string * string)) : string :=
  fold_left (fun acc kv => acc ++ render_attr (fst kv) (snd kv)) attrs EmptyString.

(** [let indent = match $m { 2 => .., 4 => .., _ => String::new() }]: two or
    four spaces repeated [$d] times. *)
Definition indent (m : Z) (d : nat) : string :=
  match m with
  | 2%Z => repeat_str "  " d
  | 4%Z => repeat_str "    " d
  | _ => EmptyString
  end.

(** [let nl = if $m > 0 { .. } else { .. }]: a newline exactly when [$m > 0]. *)
Definition nl (m : Z) : string := if (0 <? m)%Z then nl_s else EmptyString.

(** [if !inner_content.is_empty() { inner_content.push_str(nl); }
     inner_content.push_str(child)] *)
Definition push_child (sep inner c : string) : string :=
  (if negb (String.eqb inner EmptyString) then inner ++ sep else inner) ++ c.

Definition inner_content (m : Z) (children : list string) : string :=
  fold_left (push_child (nl m)) children EmptyString.

Definition void_tags : list string :=
  ["area"; "base"; "br"; "col"; "embed"; "hr"; "img"; "input"; "link";
   "meta"; "source"; "track"; "wbr"].

Definition is_void (tag_name : string) : bool := existsb (String.eqb tag_name) void_tags.

(** Rule 1, TERMINATION. *)
Definition terminate (m : Z) (d : nat) (tag_name : string)
    (attrs : list (string * string)) (children : list string) : string :=
  let attr_str := attr_string attrs in
  let ind := indent m d in
  let sep := nl m in
  let inner := inner_content m children in
  if is_void tag_name then ind ++ "<" ++ tag_name ++ attr_str ++ ">"
  else if String.eqb inner EmptyString then
    ind ++ "<" ++ tag_name ++ attr_str ++ "></" ++ tag_name ++ ">"
  else
    ind ++ "<" ++ tag_name ++ attr_str ++ ">" ++ sep ++ inner ++ sep ++ ind
        ++ "</" ++ tag_name ++ ">".

(** ** The token rules of [rsx_muncher!] *)

(** An attribute key: an identifier ([class]) or a literal (the literal's
    source text, quotes included, as [stringify!] prints it). *)
Inductive attr_key :=
| KeyIdent (name : string)
| KeyLit (source : string).

Definition stringify_key (k : attr_key) : string :=
  match k with
  | KeyIdent n => n
  | KeyLit s => s
  end.

(** The key token of a plain string literal with content [s]. *)
Definition str_key (s : string) : attr_key := KeyLit (dq_s ++ s ++ dq_s).

Inductive rsx_item :=
| Attr (k : attr_key) (v : string)                     (* rules 2a-2d *)
| Tag (t : string) (content : rsx_tokens)              (* rule 3 *)
| For (it : string) (iterations : rsx_iterations)      (* rule 4 *)
| Braced (text : string)                               (* rule 5 *)
| Lit (text : string)                                  (* rule 6 *)
| Comma                                                (* rule 7 *)
(** The token sequence [$($rest:tt)*] still to be munched. *)
with rsx_tokens :=
| TEnd
| TCons (i : rsx_item) (rest : rsx_tokens)
(** The loop [for $var in $collection => { $it { $ic } }]: the content [$ic]
    of the body as it reads at each value of the collection, in order. *)
with rsx_iterations :=
| IterEnd
| Iter (ic : rsx_tokens) (more : rsx_iterations).

Scheme rsx_item_mut := Induction for rsx_item Sort Prop
with rsx_tokens_mut := Induction for rsx_tokens Sort Prop
with rsx_iterations_mut := Induction for rsx_iterations Sort Prop.

Declare Scope rsx_scope.
Delimit Scope rsx_scope with rsx.
Notation "[| |]" := TEnd (format "[| |]") : rsx_scope.
Notation "[| x ; .. ; y |]" := (TCons x .. (TCons y TEnd) ..) : rsx_scope.

Fixpoint rsx_muncher (m : Z) (d : nat) (tag : string)
    (attrs : list (string * string)) (children : list string)
    (rest : rsx_tokens) {struct rest} : string :=
  match rest with
  | TEnd => terminate m d tag attrs children
  | TCons (Attr k v) rest' =>
      rsx_muncher m d tag (attrs ++ [(stringify_key k, v)]) children rest'
  | TCons (Tag t c) rest' =>
      rsx_muncher m d tag attrs (children ++ [rsx_muncher m (d + 1) t [] [] c]) rest'
  | TCons (For it iters) rest' =>
      rsx_muncher m d tag attrs (children ++ [for_loop m d it iters EmptyString]) rest'
  | TCons (Braced text) rest' =>
      rsx_muncher m d tag attrs (children ++ [indent m (d + 1) ++ text]) rest'
  | TCons (Lit text) rest' =>
      rsx_muncher m d tag attrs (children ++ [indent m (d + 1) ++ text]) rest'
  | TCons Comma rest' => rsx_muncher m d tag attrs children rest'
  end
(** The [for] statement of rule 4: [s] is the string built so far, each
    body is munched at depth [$d + 1]. *)
with for_loop (m : Z) (d : nat) (it : string) (l : rsx_iterations) (s : string)
    {struct l} : string :=
  match l with
  | IterEnd => s
  | Iter ic l' => for_loop m d it l' (push_child (nl m) s (rsx_muncher m (d + 1) it [] [] ic))
  end.

(** ** [rsx!] *)

Inductive style := lined | btfy0 | btfy2 | btfy4.

Definition style_mode (st : style) : Z :=
  match st with lined => 0 | btfy0 => 1 | btfy2 => 2 | btfy4 => 4 end%Z.

Definition rsx (st : style) (doctype_html : bool) (tag : string)
    (content : rsx_tokens) : string :=
  let body := rsx_muncher (style_mode st) 0 tag [] [] content in
  if doctype_html then "<!DOCTYPE html>" ++ nl_s ++ body else body.

(** ** Reading a munched token sequence *)

(** The attributes the attribute rules collect, in order. *)
Fixpoint attrs_of (rest : rsx_tokens) : list (string * string) :=
  match rest with
  | TEnd => []
  | TCons (Attr k v) r => (stringify_key k, v) :: attrs_of r
  | TCons _ r => attrs_of r
  end.

(** The child string a token adds to [$children] at depth [d]. *)
Definition item_child (m : Z) (d : nat) (i : rsx_item) : list string :=
  match i with
  | Tag t c => [rsx_muncher m (d + 1) t [] [] c]
  | For it iters => [for_loop m d it iters EmptyString]
  | Braced text | Lit text => [indent m (d + 1) ++ text]
  | Attr _ _ | Comma => []
  end.

Fixpoint children_of (m : Z) (d : nat) (rest : rsx_tokens) : list string :=
  match rest with
  | TEnd => []
  | TCons i r => item_child m d i ++ children_of m d r
  end.

(** The body of each iteration of a loop, munched at depth [d + 1]. *)
Fixpoint loop_bodies (m : Z) (d : nat) (it : string) (l : rsx_iterations) : list string :=
  match l with
  | IterEnd => []
  | Iter ic l' => rsx_muncher m (d + 1) it [] [] ic :: loop_bodies m d it l'
  end.

(** The loop written out by hand: one [it { ic }] tag per iteration, in
    front of [rest]. *)
Fixpoint unroll (it : string) (l : rsx_iterations) (rest : rsx_tokens) : rsx_tokens :=
  match l with
  | IterEnd => rest
  | Iter ic l' => TCons (Tag it ic) (unroll it l' rest)
  end.

(** ** Newlines *)

Definition newline : ascii := "010"%char.

(** The string with every newline deleted. *)
Fixpoint strip_nl (s : string) : string :=
  match s with
  | EmptyString => EmptyString
  | String c s' => if Ascii.eqb c newline then strip_nl s' else String c (strip_nl s')
  end.

Fixpoint nl_free (s : string) : bool :=
  match s with
  | EmptyString => true
  | String c s' => negb (Ascii.eqb c newline) && nl_free s'
  end.

(** No newline in any tag name, attribute key or value, or text of a token
    sequence. *)
Fixpoint item_nl_free (i : rsx_item) : bool :=
  match i with
  | Attr k v => nl_free (stringify_key k) && nl_free v
  | Tag t c => nl_free t && tokens_nl_free c
  | For it iters => nl_free it && iters_nl_free iters
  | Braced text | Lit text => nl_free text
  | Comma => true
  end
with tokens_nl_free (ts : rsx_tokens) : bool :=
  match ts with
  | TEnd => true
  | TCons i r => item_nl_free i && tokens_nl_free r
  end
with iters_nl_free (l : rsx_iterations) : bool :=
  match l with
  | IterEnd => true
  | Iter ic l' => tokens_nl_free ic && iters_nl_free l'
  end.

Open Scope rsx_scope.

Example rsx_p_empty : rsx btfy2 false "p" [| |] = "<p></p>".
Proof. reflexivity. Qed.

Example rsx_p_text :
  rsx btfy2 false "p" [| Lit "..." |] = "<p>" ++ nl_s ++ "  ..." ++ nl_s ++ "</p>".
Proof. reflexivity. Qed.

(** The example of the [rsx_muncher!] documentation, in [lined] style. *)
Example rsx_doc_div :
  rsx lined false "div"
    [| Lit "..."; Braced "<!-- c -->";
       Tag "span" [| Attr (KeyIdent "id") "my-id"; Comma;
                     Attr (KeyIdent "class") "my-class"; Comma;
                     Attr (str_key "x-show") EmptyString; Comma;
                     Attr (str_key ":class") "p-4"; Comma; Lit "..." |];
       Lit "..." |]
  = "<div>...<!-- c --><span id=" ++ dq_s ++ "my-id" ++ dq_s ++ " class=" ++ dq_s
    ++ "my-class" ++ dq_s ++ " x-show='' :class='p-4'>...</span>...</div>".
Proof. reflexivity. Qed.

Example rsx_loop_btfy4 :
  rsx btfy4 false "ol"
    [| For "li" (Iter [| Braced "a" |] (Iter [| Braced "b" |] IterEnd)) |]
  = "<ol>" ++ nl_s ++ "    <li>" ++ nl_s ++ "        a" ++ nl_s ++ "    </li>" ++ nl_s
    ++ "    <li>" ++ nl_s ++ "        b" ++ nl_s ++ "    </li>" ++ nl_s ++ "</ol>".
Proof. reflexivity. Qed.

Example rsx_doctype :
  rsx lined true "html" [| Tag "head" [| |]; Tag "body" [| Tag "br" [| Lit "x" |] |] |]
  = "<!DOCTYPE html>" ++ nl_s ++ "<html><head></head><body><br></body></html>".
Proof. reflexivity. Qed.

(** ** String lemmas *)

Lemma sapp_nil_r (s : string) : s ++ EmptyString = s.
Proof. induction s as [ |c s IH]; simpl; [reflexivity | now rewrite IH]. Qed.

Lemma sapp_assoc (a b c : string) : a ++ (b ++ c) = (a ++ b) ++ c.
Proof. induction a as [ |x a IH]; simpl; [reflexivity | now rewrite IH]. Qed.

Lemma sapp_eq_empty (a b : string) : a ++ b = EmptyString -> a = EmptyString /\ b = EmptyString.
Proof. destruct a; simpl; [auto | discriminate]. Qed.

Lemma sapp_neq_empty_l (a b : string) : a <> EmptyString -> a ++ b <> EmptyString.
Proof. intros Ha Hab. apply Ha. exact (proj1 (sapp_eq_empty a b Hab)). Qed.

Lemma indent_app_lt (m : Z) (d : nat) (r : string) :
  indent m d ++ "<" ++ r <> EmptyString.
Proof.
  intros H. apply sapp_eq_empty in H as [_ H]. discriminate H.
Qed.

(** ** Munching, read off *)

Lemma attr_string_from (attrs : list (string * string)) (acc : string) :
  fold_left (fun acc kv => acc ++ render_attr (fst kv) (snd kv)) attrs acc
  = acc ++ attr_string attrs.
Proof.
  unfold attr_string. revert acc.
  induction attrs as [ |kv attrs IH]; intros acc; simpl.
  - now rewrite sapp_nil_r.
  - rewrite IH, (IH (render_attr _ _)). now rewrite sapp_assoc.
Qed.

Lemma attr_string_cons (kv : string * string) (attrs : list (string * string)) :
  attr_string (kv :: attrs) = render_attr (fst kv) (snd kv) ++ attr_string attrs.
Proof. unfold attr_string at 1. simpl. apply attr_string_from. Qed.

(** Every run of the muncher ends in the terminal rule, with the attributes
    and the children of the remaining tokens appended in order. *)
Lemma rsx_muncher_terminate (m : Z) (d : nat) (tag : string) (rest : rsx_tokens) :
  forall attrs children,
  rsx_muncher m d tag attrs children rest
  = terminate m d tag (attrs ++ attrs_of rest) (children ++ children_of m d rest).
Proof.
  induction rest as [ |i rest IH]; intros attrs children.
  - simpl. now rewrite !app_nil_r.
  - destruct i; simpl; rewrite IH; repeat rewrite <- app_assoc; reflexivity.
Qed.

Lemma rsx_muncher_element (m : Z) (d : nat) (tag : string) (items : rsx_tokens) :
  rsx_muncher m d tag [] [] items
  = terminate m d tag (attrs_of items) (children_of m d items).
Proof. apply rsx_muncher_terminate. Qed.

(** A munched element starts with its indentation and an opening angle
    bracket. *)
Lemma rsx_muncher_shape (m : Z) (d : nat) (tag : string) (items : rsx_tokens) :
  exists r, rsx_muncher m d tag [] [] items = indent m d ++ "<" ++ r.
Proof.
  rewrite rsx_muncher_element. unfold terminate.
  destruct (is_void tag); [ |destruct (_ =? _)%string]; eexists; reflexivity.
Qed.

Lemma rsx_muncher_nonempty (m : Z) (d : nat) (tag : string) (items : rsx_tokens) :
  rsx_muncher m d tag [] [] items <> EmptyString.
Proof.
  destruct (rsx_muncher_shape m d tag items) as [r ->]. apply indent_app_lt.
Qed.

(** ** Joining children *)

(** The separator-prefixed tail of [String.concat]. *)
Lemma concat_cons (sep c : string) (cs : list string) :
  String.concat sep (c :: cs) = c ++ fold_right (fun x r => sep ++ x ++ r) EmptyString cs.
Proof.
  revert c. induction cs as [ |c' cs IH]; intros c; simpl.
  - now rewrite sapp_nil_r.
  - f_equal. f_equal. apply IH.
Qed.

Lemma fold_push_nonempty (sep acc : string) (cs : list string) :
  acc <> EmptyString ->
  fold_left (push_child sep) cs acc
  = acc ++ fold_right (fun x r => sep ++ x ++ r) EmptyString cs.
Proof.
  revert acc. induction cs as [ |c cs IH]; intros acc Hacc; simpl.
  - now rewrite sapp_nil_r.
  - unfold push_child at 2.
    destruct (String.eqb_spec acc EmptyString) as [E|_]; [contradiction | ]. simpl.
    rewrite IH.
    + now rewrite <- !sapp_assoc.
    + rewrite <- sapp_assoc. now apply sapp_neq_empty_l.
Qed.

(** With no empty child, the code's join is [String.concat]. *)
Lemma fold_push_concat (sep : string) (cs : list string) :
  Forall (fun c => c <> EmptyString) cs ->
  fold_left (push_child sep) cs EmptyString = String.concat sep cs.
Proof.
  intros H. destruct cs as [ |c cs]; [reflexivity | ].
  inversion H; subst. rewrite concat_cons. simpl.
  now apply fold_push_nonempty.
Qed.

Lemma for_loop_bodies (m : Z) (d : nat) (it : string) (l : rsx_iterations) :
  forall s, for_loop m d it l s = fold_left (push_child (nl m)) (loop_bodies m d it l) s.
Proof.
  induction l as [ |ic l IH]; intros s; simpl; [reflexivity | apply IH].
Qed.

Lemma loop_bodies_nonempty (m : Z) (d : nat) (it : string) (l : rsx_iterations) :
  Forall (fun c => c <> EmptyString) (loop_bodies m d it l).
Proof.
  induction l as [ |ic l IH]; simpl; constructor; auto. apply rsx_muncher_nonempty.
Qed.

Lemma push_child_empty (sep c : string) : push_child sep EmptyString c = c.
Proof. reflexivity. Qed.

Lemma push_child_nonempty (sep acc c : string) :
  acc <> EmptyString -> push_child sep acc c = acc ++ sep ++ c.
Proof.
  intros H. unfold push_child.
  destruct (String.eqb_spec acc EmptyString); [contradiction | ].
  simpl. now rewrite sapp_assoc.
Qed.

Lemma push_fold_nonempty (sep acc c : string) (cs : list string) :
  Forall (fun x => x <> EmptyString) (c :: cs) ->
  push_child sep acc (fold_left (push_child sep) (c :: cs) EmptyString)
  = fold_left (push_child sep) (c :: cs) acc.
Proof.
  intros H. inversion H as [ |? ? Hc Hcs]; subst. simpl.
  rewrite push_child_empty, (fold_push_nonempty sep c) by exact Hc.
  destruct (String.eqb_spec acc EmptyString) as [->|Hacc].
  - rewrite push_child_empty, push_child_empty, fold_push_nonempty by exact Hc.
    reflexivity.
  - rewrite !push_child_nonempty by (try apply sapp_neq_empty_l; assumption).
    rewrite fold_push_nonempty by (apply sapp_neq_empty_l; assumption).
    now rewrite <- !sapp_assoc.
Qed.

Lemma inner_content_aggregate (m : Z) (pre l post : list string) :
  l <> [] -> Forall (fun x => x <> EmptyString) l ->
  inner_content m (pre ++ [fold_left (push_child (nl m)) l EmptyString] ++ post)%list
  = inner_content m (pre ++ l ++ post)%list.
Proof.
  intros Hl Hne. unfold inner_content.
  rewrite !fold_left_app. f_equal. simpl.
  destruct l as [ |c l]; [contradiction | ].
  apply push_fold_nonempty, Hne.
Qed.

Lemma attrs_of_unroll (it : string) (l : rsx_iterations) (rest : rsx_tokens) :
  attrs_of (unroll it l rest) = attrs_of rest.
Proof. induction l as [ |ic l IH]; simpl; auto. Qed.

Lemma children_of_unroll (m : Z) (d : nat) (it : string) (l : rsx_iterations)
    (rest : rsx_tokens) :
  children_of m d (unroll it l rest) = (loop_bodies m d it l ++ children_of m d rest)%list.
Proof. induction l as [ |ic l IH]; simpl; [reflexivity | now rewrite IH]. Qed.

(** A non-empty loop renders as its iterations written out as sibling tags. *)
Lemma rsx_muncher_for_unroll (m : Z) (d : nat) (tag : string)
    (attrs : list (string * string)) (children : list string)
    (it : string) (l : rsx_iterations) (rest : rsx_tokens) :
  l <> IterEnd ->
  rsx_muncher m d tag attrs children (TCons (For it l) rest)
  = rsx_muncher m d tag attrs children (unroll it l rest).
Proof.
  intros Hl. rewrite !rsx_muncher_terminate.
  cbn [attrs_of children_of item_child].
  rewrite attrs_of_unroll, children_of_unroll, for_loop_bodies.
  unfold terminate.
  rewrite (inner_content_aggregate m children (loop_bodies m d it l)).
  - reflexivity.
  - destruct l; [contradiction | discriminate].
  - apply loop_bodies_nonempty.
Qed.

Lemma attr_string_concat (attrs : list (string * string)) :
  attr_string attrs
  = fold_right append EmptyString (map (fun kv => render_attr (fst kv) (snd kv)) attrs).
Proof.
  induction attrs as [ |kv attrs IH]; [reflexivity | ].
  rewrite attr_string_cons, IH. reflexivity.
Qed.

Lemma render_attr_shape (k v : string) :
  (v = "false" /\ render_attr k v = EmptyString)
  \/ (v <> "false" /\ exists r, render_attr k v = " " ++ trim_matches_dq k ++ r).
Proof.
  unfold render_attr.
  destruct (String.eqb_spec v "true") as [->|Ht].
  - right. split; [discriminate | ]. exists EmptyString. now rewrite sapp_nil_r.
  - destruct (String.eqb_spec v "false") as [->|Hf]; simpl.
    + left. auto.
    + right. split; [exact Hf | ].
      destruct (_ || _); eexists; reflexivity.
Qed.

Lemma is_void_In (t : string) : is_void t = true <-> In t void_tags.
Proof.
  unfold is_void. rewrite existsb_exists. split.
  - intros [x [Hx E]]. apply String.eqb_eq in E. now subst.
  - intros H. exists t. split; [exact H | apply String.eqb_refl].
Qed.

(** ** The claims *)

(** C1 (as amended): a non-void element whose child strings are all
    non-empty, and of which there is at least one, renders as its
    indentation, the opening tag with its attributes, [nl], the children
    joined by [nl], [nl], its indentation again and the closing tag; [nl] is
    empty in [lined] style and a newline otherwise. *)
Theorem element_with_children_render (m : Z) (d : nat) (t : string) (items : rsx_tokens) :
  is_void t = false ->
  children_of m d items <> [] ->
  Forall (fun c => c <> EmptyString) (children_of m d items) ->
  rsx_muncher m d t [] [] items
  = indent m d ++ "<" ++ t ++ attr_string (attrs_of items) ++ ">" ++ nl m
    ++ String.concat (nl m) (children_of m d items) ++ nl m ++ indent m d
    ++ "</" ++ t ++ ">".
Proof.
  intros Hv Hc Hne. rewrite rsx_muncher_element. unfold terminate, inner_content.
  rewrite Hv, (fold_push_concat _ _ Hne).
  destruct (children_of m d items) as [ |c cs] eqn:E; [contradiction | ].
  inversion Hne as [ |? ? Hc0 _]; subst.
  rewrite concat_cons.
  rewrite (proj2 (String.eqb_neq _ _)) by (apply sapp_neq_empty_l; exact Hc0).
  reflexivity.
Qed.

Lemma element_with_children_render_witness :
  is_void "ul" = false
  /\ children_of 2 1 [| Attr (KeyIdent "id") "x"; Tag "li" [| |]; Lit "t" |] <> []
  /\ Forall (fun c => c <> EmptyString)
       (children_of 2 1 [| Attr (KeyIdent "id") "x"; Tag "li" [| |]; Lit "t" |])
  /\ rsx_muncher 2 1 "ul" [] [] [| Attr (KeyIdent "id") "x"; Tag "li" [| |]; Lit "t" |]
     = indent 2 1 ++ "<" ++ "ul"
       ++ attr_string (attrs_of [| Attr (KeyIdent "id") "x"; Tag "li" [| |]; Lit "t" |])
       ++ ">" ++ nl 2
       ++ String.concat (nl 2)
            (children_of 2 1 [| Attr (KeyIdent "id") "x"; Tag "li" [| |]; Lit "t" |])
       ++ nl 2 ++ indent 2 1 ++ "</" ++ "ul" ++ ">".
Proof.
  assert (Hv : is_void "ul" = false) by reflexivity.
  assert (Hc : children_of 2 1 [| Attr (KeyIdent "id") "x"; Tag "li" [| |]; Lit "t" |] <> [])
    by (simpl; discriminate).
  assert (Hne : Forall (fun c => c <> EmptyString)
                  (children_of 2 1 [| Attr (KeyIdent "id") "x"; Tag "li" [| |]; Lit "t" |]))
    by (simpl; repeat constructor; discriminate).
  split; [exact Hv | split; [exact Hc | split; [exact Hne | ]]].
  exact (element_with_children_render 2 1 "ul" _ Hv Hc Hne).
Defined.

(** C1 as first stated (the rendered string starts with the opening tag) fails
    for a nested element in [btfy2] style: it starts with its indentation. *)
Lemma element_with_children_claim_fails :
  ~ (forall (m : Z) (d : nat) (t : string) (items : rsx_tokens),
       is_void t = false -> children_of m d items <> [] ->
       rsx_muncher m d t [] [] items
       = "<" ++ t ++ attr_string (attrs_of items) ++ ">" ++ nl m
         ++ String.concat (nl m) (children_of m d items) ++ nl m ++ indent m d
         ++ "</" ++ t ++ ">").
Proof.
  intros H.
  specialize (H 2%Z 1 "p" [| Lit "x" |] eq_refl ltac:(simpl; discriminate)).
  vm_compute in H. discriminate H.
Qed.

(** C2: an attribute whose value is neither [true] nor [false] is written in
    single quotes, with each backslash-quote pair turned into a bare quote,
    when its key starts with [:], [@], [x-] or [hx-] or its value contains a
    double quote (bare or escaped); otherwise in double quotes, verbatim. *)
Theorem attribute_quoting (k v : string) :
  v <> "true" -> v <> "false" ->
  render_attr k v
  = if starts_with ":" (trim_matches_dq k) || starts_with "@" (trim_matches_dq k)
       || starts_with "x-" (trim_matches_dq k) || starts_with "hx-" (trim_matches_dq k)
       || contains dq_s v || contains bs_dq v
    then " " ++ trim_matches_dq k ++ "='" ++ replace v bs_dq dq_s ++ "'"
    else " " ++ trim_matches_dq k ++ "=" ++ dq_s ++ v ++ dq_s.
Proof.
  intros Ht Hf. unfold render_attr.
  rewrite (proj2 (String.eqb_neq _ _) Ht), (proj2 (String.eqb_neq _ _) Hf).
  reflexivity.
Qed.

Lemma attribute_quoting_witness :
  ("{ open: false }" <> "true")
  /\ ("{ open: false }" <> "false")
  /\ render_attr (stringify_key (str_key "x-data")) "{ open: false }"
     = " x-data='{ open: false }'".
Proof.
  assert (Ht : "{ open: false }" <> "true") by discriminate.
  assert (Hf : "{ open: false }" <> "false") by discriminate.
  split; [exact Ht | split; [exact Hf | ]].
  rewrite (attribute_quoting _ _ Ht Hf). reflexivity.
Defined.

(** C3: an element whose tag is one of the void tags renders as its
    indentation and its opening tag with the attributes: no closing tag and
    none of its children, whatever they are, in every style and depth. *)
Theorem void_element_render (t : string) (m : Z) (d : nat) (items : rsx_tokens) :
  In t void_tags ->
  rsx_muncher m d t [] [] items = indent m d ++ "<" ++ t ++ attr_string (attrs_of items) ++ ">".
Proof.
  intros H. apply is_void_In in H.
  rewrite rsx_muncher_element. unfold terminate. now rewrite H.
Qed.

Lemma void_element_render_witness :
  In "br" void_tags
  /\ rsx_muncher 4 1 "br" [] [] [| Attr (KeyIdent "class") "c"; Lit "x"; Tag "p" [| |] |]
     = "    <br class=" ++ dq_s ++ "c" ++ dq_s ++ ">".
Proof.
  assert (H : In "br" void_tags) by (simpl; tauto).
  split; [exact H | ].
  rewrite (void_element_render "br" 4 1 _ H). reflexivity.
Defined.

(** C4: the value [true] renders as a space and the bare key, the value
    [false] renders as nothing, whatever the key. *)
Theorem boolean_attributes (k : attr_key) :
  render_attr (stringify_key k) "true" = " " ++ trim_matches_dq (stringify_key k)
  /\ render_attr (stringify_key k) "false" = EmptyString.
Proof. split; reflexivity. Qed.

(** C5: a non-void element without children renders as its indentation, the
    opening tag with its attributes and the closing tag, with no newline in
    between, in every style and depth. *)
Theorem childless_element_render (m : Z) (d : nat) (t : string) (items : rsx_tokens) :
  is_void t = false -> children_of m d items = [] ->
  rsx_muncher m d t [] [] items
  = indent m d ++ "<" ++ t ++ attr_string (attrs_of items) ++ "></" ++ t ++ ">".
Proof.
  intros Hv Hc. rewrite rsx_muncher_element. unfold terminate.
  now rewrite Hv, Hc.
Qed.

Lemma childless_element_render_witness :
  is_void "p" = false
  /\ children_of 1 0 [| Attr (KeyIdent "hidden") "true"; Comma |] = []
  /\ rsx_muncher 1 0 "p" [] [] [| Attr (KeyIdent "hidden") "true"; Comma |]
     = "<p hidden></p>".
Proof.
  assert (Hv : is_void "p" = false) by reflexivity.
  assert (Hc : children_of 1 0 [| Attr (KeyIdent "hidden") "true"; Comma |] = [])
    by reflexivity.
  split; [exact Hv | split; [exact Hc | ]].
  rewrite (childless_element_render 1 0 "p" _ Hv Hc). reflexivity.
Defined.

(** C6: [get_char s n] is the empty string when [n] is 0 or exceeds the
    number of characters of [s], the [n]-th character (counting from 1)
    otherwise, and never panics. *)
Theorem get_char_bounds {char : Type} :
  (forall (s : list char) (n : nat), (n = 0 \/ length s < n)%nat -> get_char s n = Some [])
  /\ (forall (s : list char) (n : nat), (1 <= n <= length s)%nat ->
        exists c, nth_error s (n - 1) = Some c /\ get_char s n = Some [c])
  /\ get_char (list_ascii_of_string "Hello") 0 = Some []
  /\ get_char (list_ascii_of_string "Hello") 1 = Some ["H"%char]
  /\ get_char (list_ascii_of_string "Hello") 50 = Some [].
Proof.
  split; [ |split; [ |repeat split; reflexivity]].
  - intros s n H. unfold get_char.
    destruct H as [->|H]; [reflexivity | ].
    apply Nat.ltb_lt in H. rewrite H, orb_true_r. reflexivity.
  - intros s n [H1 H2]. unfold get_char.
    destruct (nth_error s (n - 1)) as [c| ] eqn:E.
    + exists c. split; [reflexivity | ].
      rewrite (proj2 (Nat.eqb_neq n 0)) by lia.
      rewrite (proj2 (Nat.ltb_ge (length s) n)) by lia.
      reflexivity.
    + apply nth_error_None in E. lia.
Qed.

(** C8: a loop adds one child at its place among the children: the bodies
    of its iterations, munched at depth [d + 1], joined by [nl]; for three
    iterations this is the three bodies joined by [nl], and the element
    renders exactly as with the three tags written out by hand. *)
Theorem loop_aggregated_child (m : Z) (d : nat) :
  (forall tag attrs children it l rest,
     rsx_muncher m d tag attrs children (TCons (For it l) rest)
     = rsx_muncher m d tag attrs
         (children ++ [String.concat (nl m) (loop_bodies m d it l)])%list rest)
  /\ (forall it a b c,
        for_loop m d it (Iter a (Iter b (Iter c IterEnd))) EmptyString
        = rsx_muncher m (d + 1) it [] [] a ++ nl m ++ rsx_muncher m (d + 1) it [] [] b
          ++ nl m ++ rsx_muncher m (d + 1) it [] [] c)
  /\ (forall tag attrs children it a b c rest,
        rsx_muncher m d tag attrs children
          (TCons (For it (Iter a (Iter b (Iter c IterEnd)))) rest)
        = rsx_muncher m d tag attrs children
            (TCons (Tag it a) (TCons (Tag it b) (TCons (Tag it c) rest)))).
Proof.
  split; [ |split].
  - intros tag attrs children it l rest. simpl.
    rewrite for_loop_bodies, fold_push_concat by apply loop_bodies_nonempty.
    reflexivity.
  - intros it a b c.
    rewrite for_loop_bodies, fold_push_concat by apply loop_bodies_nonempty.
    reflexivity.
  - intros. apply rsx_muncher_for_unroll. discriminate.
Qed.

(** C9: the attributes are written right after the tag name, in the order
    they are declared, duplicates included: each one a fragment that is
    empty for the value [false] and starts with a space and the key
    otherwise. *)
Theorem attributes_in_order (m : Z) (d : nat) (t : string) (items : rsx_tokens) :
  (exists tail,
     rsx_muncher m d t [] [] items
     = indent m d ++ "<" ++ t
       ++ fold_right append EmptyString
            (map (fun kv => render_attr (fst kv) (snd kv)) (attrs_of items))
       ++ ">" ++ tail)
  /\ Forall (fun kv =>
       (snd kv = "false" /\ render_attr (fst kv) (snd kv) = EmptyString)
       \/ (snd kv <> "false"
           /\ exists r, render_attr (fst kv) (snd kv) = " " ++ trim_matches_dq (fst kv) ++ r))
       (attrs_of items).
Proof.
  split.
  - rewrite rsx_muncher_element, <- attr_string_concat. unfold terminate.
    destruct (is_void t); [ |destruct (_ =? _)%string].
    + exists EmptyString. now rewrite sapp_nil_r.
    + eexists. reflexivity.
    + eexists. reflexivity.
  - apply Forall_forall. intros [k v] _. apply render_attr_shape.
Qed.

(** Duplicate keys are both written. *)
Example attributes_duplicate_keys :
  rsx lined false "a" [| Attr (KeyIdent "class") "x"; Comma; Attr (KeyIdent "class") "y" |]
  = "<a class=" ++ dq_s ++ "x" ++ dq_s ++ " class=" ++ dq_s ++ "y" ++ dq_s ++ "></a>".
Proof. reflexivity. Qed.

(** ** Stripping the quotes of a key *)

Lemma list_ascii_of_string_app (a b : string) :
  list_ascii_of_string (a ++ b) = (list_ascii_of_string a ++ list_ascii_of_string b)%list.
Proof. induction a as [ |c a IH]; simpl; [reflexivity | now rewrite IH]. Qed.

Lemma trim_start_dq_repeat (n : nat) (l : list ascii) :
  trim_start_dq (repeat dq n ++ l) = trim_start_dq l.
Proof. induction n as [ |n IH]; simpl; [reflexivity | exact IH]. Qed.

Lemma trim_start_dq_id (l : list ascii) :
  hd_error l <> Some dq -> trim_start_dq l = l.
Proof.
  destruct l as [ |c l]; simpl; [reflexivity | ].
  intros H. destruct (Ascii.eqb_spec c dq) as [->| _]; [contradiction | reflexivity].
Qed.

Lemma trim_start_dq_hd (l : list ascii) : hd_error (trim_start_dq l) <> Some dq.
Proof.
  induction l as [ |c l IH]; simpl; [discriminate | ].
  destruct (Ascii.eqb_spec c dq) as [_|Hc]; [exact IH | ].
  simpl. intros E. injection E. exact Hc.
Qed.

Lemma trim_start_dq_split (l : list ascii) :
  exists j, l = (repeat dq j ++ trim_start_dq l)%list.
Proof.
  induction l as [ |c l [j IH]]; simpl; [now exists 0 | ].
  destruct (Ascii.eqb_spec c dq) as [->|_].
  - exists (S j). simpl. now rewrite <- IH.
  - now exists 0.
Qed.

Definition trim_list (l : list ascii) : list ascii :=
  rev (trim_start_dq (rev (trim_start_dq l))).

Lemma trim_matches_dq_list (s : string) :
  trim_matches_dq s = string_of_list_ascii (trim_list (list_ascii_of_string s)).
Proof. reflexivity. Qed.

Lemma trim_list_edges (l : list ascii) (n1 n2 : nat) :
  hd_error l <> Some dq -> hd_error (rev l) <> Some dq ->
  trim_list (repeat dq n1 ++ l ++ repeat dq n2) = l.
Proof.
  intros H1 H2. unfold trim_list. rewrite trim_start_dq_repeat.
  destruct l as [ |c l'] eqn:El.
  - simpl. rewrite <- (app_nil_r (repeat dq n2)), trim_start_dq_repeat. reflexivity.
  - rewrite <- El in *.
    rewrite (trim_start_dq_id (l ++ repeat dq n2)).
    + rewrite rev_app_distr, rev_repeat, trim_start_dq_repeat, trim_start_dq_id by exact H2.
      apply rev_involutive.
    + subst l. exact H1.
Qed.

Lemma trim_list_result_edges (l : list ascii) :
  hd_error (trim_list l) <> Some dq /\ hd_error (rev (trim_list l)) <> Some dq.
Proof.
  unfold trim_list. rewrite rev_involutive. split; [ |apply trim_start_dq_hd].
  destruct (trim_start_dq_split (rev (trim_start_dq l))) as [j Hj].
  assert (E : trim_start_dq l
              = (rev (trim_start_dq (rev (trim_start_dq l))) ++ repeat dq j)%list).
  { rewrite <- (rev_involutive (trim_start_dq l)) at 1.
    rewrite Hj at 1. now rewrite rev_app_distr, rev_repeat. }
  destruct (rev (trim_start_dq (rev (trim_start_dq l)))) as [ |c r]; [discriminate | ].
  pose proof (trim_start_dq_hd l) as H. rewrite E in H. exact H.
Qed.

Lemma trim_matches_dq_idem (k : string) :
  trim_matches_dq (trim_matches_dq k) = trim_matches_dq k.
Proof.
  rewrite !trim_matches_dq_list, list_ascii_of_string_of_list_ascii.
  destruct (trim_list_result_edges (list_ascii_of_string k)) as [H1 H2].
  pose proof (trim_list_edges _ 0 0 H1 H2) as E. simpl in E. rewrite app_nil_r in E.
  now rewrite E.
Qed.

(** C10: the key is stripped of all its leading and trailing double quotes
    before anything else is decided: a key given as a string literal is
    written without its quotes, and the prefix test for [:], [@], [x-] and
    [hx-] sees the stripped key. *)
Theorem attribute_key_stripped :
  (forall k v, render_attr k v = render_attr (trim_matches_dq k) v)
  /\ (forall (s : string) (n1 n2 : nat),
        hd_error (list_ascii_of_string s) <> Some dq ->
        hd_error (rev (list_ascii_of_string s)) <> Some dq ->
        trim_matches_dq
          (string_of_list_ascii (repeat dq n1) ++ s ++ string_of_list_ascii (repeat dq n2))
        = s)
  /\ (forall s v,
        hd_error (list_ascii_of_string s) <> Some dq ->
        hd_error (rev (list_ascii_of_string s)) <> Some dq ->
        v <> "true" -> v <> "false" ->
        starts_with ":" s || starts_with "@" s || starts_with "x-" s || starts_with "hx-" s
        = true ->
        render_attr (stringify_key (str_key s)) v
        = " " ++ s ++ "='" ++ replace v bs_dq dq_s ++ "'")
  /\ render_attr (stringify_key (str_key "x-show")) "open" = " x-show='open'".
Proof.
  assert (Hstrip : forall (s : string) (n1 n2 : nat),
        hd_error (list_ascii_of_string s) <> Some dq ->
        hd_error (rev (list_ascii_of_string s)) <> Some dq ->
        trim_matches_dq
          (string_of_list_ascii (repeat dq n1) ++ s ++ string_of_list_ascii (repeat dq n2))
        = s).
  { intros s n1 n2 H1 H2.
    rewrite trim_matches_dq_list, !list_ascii_of_string_app,
      !list_ascii_of_string_of_list_ascii, trim_list_edges by assumption.
    apply string_of_list_ascii_of_string. }
  split; [ |split; [exact Hstrip | split; [ |reflexivity]]].
  - intros k v. unfold render_attr at 2. rewrite trim_matches_dq_idem. reflexivity.
  - intros s v H1 H2 Ht Hf Hp.
    rewrite attribute_quoting by assumption.
    assert (Hk : trim_matches_dq (stringify_key (str_key s)) = s)
      by exact (Hstrip s 1 1 H1 H2).
    rewrite Hk, Hp. reflexivity.
Qed.

(** ** Deleting newlines *)

Lemma strip_nl_app (a b : string) : strip_nl (a ++ b) = strip_nl a ++ strip_nl b.
Proof.
  induction a as [ |c a IH]; simpl; [reflexivity | ].
  destruct (Ascii.eqb c newline); simpl; now rewrite IH.
Qed.

Lemma strip_nl_free (s : string) : nl_free s = true -> strip_nl s = s.
Proof.
  induction s as [ |c s IH]; simpl; [reflexivity | ].
  intros H. apply andb_prop in H as [Hc Hs].
  destruct (Ascii.eqb c newline); [discriminate | now rewrite IH].
Qed.

Lemma nl_free_app (a b : string) : nl_free (a ++ b) = nl_free a && nl_free b.
Proof.
  induction a as [ |c a IH]; simpl; [reflexivity | now rewrite IH, andb_assoc].
Qed.

Lemma nl_free_list (s : string) :
  nl_free s = forallb (fun c => negb (Ascii.eqb c newline)) (list_ascii_of_string s).
Proof. induction s as [ |c s IH]; simpl; [reflexivity | now rewrite IH]. Qed.

Lemma forallb_rev {A : Type} (f : A -> bool) (l : list A) : forallb f (rev l) = forallb f l.
Proof.
  induction l as [ |x l IH]; simpl; [reflexivity | ].
  rewrite forallb_app, IH. simpl. now rewrite andb_true_r, andb_comm.
Qed.

Lemma forallb_trim_start {f : ascii -> bool} (l : list ascii) :
  forallb f l = true -> forallb f (trim_start_dq l) = true.
Proof.
  destruct (trim_start_dq_split l) as [j E]. rewrite E at 1.
  rewrite forallb_app. intros H. now apply andb_prop in H as [_ H].
Qed.

Lemma nl_free_trim (k : string) : nl_free k = true -> nl_free (trim_matches_dq k) = true.
Proof.
  rewrite !nl_free_list, trim_matches_dq_list, list_ascii_of_string_of_list_ascii.
  intros H. unfold trim_list.
  rewrite forallb_rev. apply forallb_trim_start. rewrite forallb_rev.
  now apply forallb_trim_start.
Qed.

Lemma nl_free_replace_go (from to : string) (s : string) :
  nl_free s = true -> nl_free to = true ->
  forall skip, nl_free (replace_go from to skip s) = true.
Proof.
  intros Hs Ht. induction s as [ |c s IH]; intros skip; [reflexivity | ].
  simpl in Hs. apply andb_prop in Hs as [Hc Hs].
  destruct skip as [ |k]; cbn [replace_go]; [ |now apply IH].
  destruct (prefix from (String c s)).
  - rewrite nl_free_app, Ht. now apply IH.
  - simpl. rewrite Hc. now apply IH.
Qed.

Lemma nl_free_render_attr (k v : string) :
  nl_free k = true -> nl_free v = true -> nl_free (render_attr k v) = true.
Proof.
  intros Hk Hv. pose proof (nl_free_trim k Hk) as Ht. revert Ht.
  unfold render_attr. cbv zeta. generalize (trim_matches_dq k) as key. intros key Ht.
  destruct (_ =? "true")%string; [simpl; exact Ht | ].
  destruct (negb _); [ |reflexivity].
  destruct (_ || _); rewrite !nl_free_app, Ht; simpl.
  - unfold replace. rewrite nl_free_replace_go by (assumption || reflexivity). reflexivity.
  - now rewrite Hv.
Qed.

Lemma nl_free_attr_string (attrs : list (string * string)) :
  Forall (fun kv => nl_free (fst kv) && nl_free (snd kv) = true) attrs ->
  nl_free (attr_string attrs) = true.
Proof.
  rewrite attr_string_concat. induction 1 as [ |[k v] attrs Hkv _ IH]; [reflexivity | ].
  simpl in *. apply andb_prop in Hkv as [Hk Hv].
  rewrite nl_free_app, IH, nl_free_render_attr by assumption. reflexivity.
Qed.

Definition strip_good (c : string) : Prop := strip_nl c = EmptyString -> c = EmptyString.

Lemma push_child_lined (a b : string) : push_child EmptyString a b = a ++ b.
Proof.
  unfold push_child. destruct (negb _); [now rewrite sapp_nil_r | reflexivity].
Qed.

Lemma strip_push_child (a b : string) :
  strip_nl (push_child nl_s a b) = strip_nl a ++ strip_nl b.
Proof.
  unfold push_child. destruct (negb _); rewrite !strip_nl_app; [ |reflexivity].
  simpl. now rewrite sapp_nil_r.
Qed.

Lemma inner_lined (cs : list string) (acc : string) :
  fold_left (push_child EmptyString) (map strip_nl cs) (strip_nl acc)
  = strip_nl (fold_left (push_child nl_s) cs acc).
Proof.
  revert acc. induction cs as [ |c cs IH]; intros acc; simpl; [reflexivity | ].
  rewrite push_child_lined, <- strip_push_child. apply IH.
Qed.

Lemma inner_good (cs : list string) (acc : string) :
  Forall strip_good cs -> strip_good acc ->
  strip_good (fold_left (push_child nl_s) cs acc).
Proof.
  intros H. revert acc. induction H as [ |c cs Hc _ IH]; intros acc Hacc; simpl; [exact Hacc | ].
  apply IH. unfold strip_good. rewrite strip_push_child. intros E.
  apply sapp_eq_empty in E as [E1 E2].
  rewrite (Hacc E1), (Hc E2). reflexivity.
Qed.

Lemma element_btfy0_nonempty (d : nat) (t : string) (items : rsx_tokens) :
  strip_nl (rsx_muncher 1 d t [] [] items) <> EmptyString.
Proof.
  destruct (rsx_muncher_shape 1 d t items) as [r ->]. simpl. discriminate.
Qed.

Lemma terminate_lined (d : nat) (t : string) (attrs : list (string * string))
    (cs : list string) :
  nl_free t = true ->
  Forall (fun kv => nl_free (fst kv) && nl_free (snd kv) = true) attrs ->
  Forall strip_good cs ->
  terminate 0 d t attrs (map strip_nl cs) = strip_nl (terminate 1 d t attrs cs).
Proof.
  intros Ht Ha Hcs. unfold terminate, inner_content.
  pose proof (inner_lined cs EmptyString) as Ei. simpl strip_nl in Ei.
  change (nl 0) with EmptyString. change (nl 1) with nl_s.
  change (indent 0 d) with EmptyString. change (indent 1 d) with EmptyString.
  rewrite Ei.
  pose proof (inner_good cs EmptyString Hcs (fun _ => eq_refl)) as Hg.
  pose proof (strip_nl_free _ (nl_free_attr_string attrs Ha)) as HA.
  pose proof (strip_nl_free _ Ht) as HT.
  destruct (is_void t); [ |destruct (String.eqb_spec
      (fold_left (push_child nl_s) cs EmptyString) EmptyString) as [E|E]].
  - repeat progress (rewrite ?strip_nl_app, ?HA, ?HT; simpl). reflexivity.
  - rewrite E. simpl.
    repeat progress (rewrite ?strip_nl_app, ?HA, ?HT; simpl). reflexivity.
  - rewrite (proj2 (String.eqb_neq _ _)) by (intros E'; exact (E (Hg E'))).
    repeat progress (rewrite ?strip_nl_app, ?HA, ?HT, ?sapp_nil_r; simpl).
    reflexivity.
Qed.

Definition lined_tokens (ts : rsx_tokens) : Prop :=
  tokens_nl_free ts = true ->
  (forall d, children_of 0 d ts = map strip_nl (children_of 1 d ts)
             /\ Forall strip_good (children_of 1 d ts))
  /\ Forall (fun kv => nl_free (fst kv) && nl_free (snd kv) = true) (attrs_of ts).

Lemma element_lined (c : rsx_tokens) (t : string) (d : nat) :
  lined_tokens c -> tokens_nl_free c = true -> nl_free t = true ->
  rsx_muncher 0 d t [] [] c = strip_nl (rsx_muncher 1 d t [] [] c).
Proof.
  intros Hc Hf Ht. destruct (Hc Hf) as [Hch Ha]. destruct (Hch d) as [E Hg].
  rewrite !rsx_muncher_element, E. now apply terminate_lined.
Qed.

Lemma tokens_lined (ts : rsx_tokens) : lined_tokens ts.
Proof.
  apply (rsx_tokens_mut
    (fun i => item_nl_free i = true ->
       forall d, item_child 0 d i = map strip_nl (item_child 1 d i)
                 /\ Forall strip_good (item_child 1 d i))
    lined_tokens
    (fun l => iters_nl_free l = true ->
       forall d it s0 s1, nl_free it = true -> s0 = strip_nl s1 -> strip_good s1 ->
       for_loop 0 d it l s0 = strip_nl (for_loop 1 d it l s1)
       /\ strip_good (for_loop 1 d it l s1))).
  - (* Attr *) intros k v _ d. simpl. auto.
  - (* Tag *) intros t c IH H d. simpl in H. apply andb_prop in H as [Ht Hc].
    simpl. split.
    + f_equal. now apply element_lined.
    + constructor; [ |constructor].
      intros E. exfalso. exact (element_btfy0_nonempty _ _ _ E).
  - (* For *) intros it l IH H d. simpl in H. apply andb_prop in H as [Hit Hl].
    destruct (IH Hl d it EmptyString EmptyString Hit eq_refl (fun _ => eq_refl))
      as [E Hg].
    simpl. rewrite E. auto.
  - (* Braced *) intros text H d. simpl in H. simpl.
    rewrite (strip_nl_free _ H). split; [reflexivity | ].
    constructor; [ |constructor]. unfold strip_good. now rewrite (strip_nl_free _ H).
  - (* Lit *) intros text H d. simpl in H. simpl.
    rewrite (strip_nl_free _ H). split; [reflexivity | ].
    constructor; [ |constructor]. unfold strip_good. now rewrite (strip_nl_free _ H).
  - (* Comma *) intros _ d. simpl. auto.
  - (* TEnd *) intros _. split; [ |constructor]. intros d. simpl. auto.
  - (* TCons *) intros i IHi r IHr H. simpl in H. apply andb_prop in H as [Hi Hr].
    destruct (IHr Hr) as [Hch Ha]. split.
    + intros d. destruct (IHi Hi d) as [Ei Gi]. destruct (Hch d) as [Er Gr].
      simpl. rewrite Ei, Er, map_app. split; [reflexivity | now apply Forall_app].
    + destruct i; simpl; try exact Ha. constructor; [exact Hi | exact Ha].
  - (* IterEnd *) intros _ d it s0 s1 _ E G. simpl. auto.
  - (* Iter *) intros ic IHic l IHl H d it s0 s1 Hit E G.
    simpl in H. apply andb_prop in H as [Hic Hl].
    simpl. apply IHl; [exact Hl | exact Hit | | ].
    + rewrite push_child_lined, strip_push_child, E.
      f_equal. now apply element_lined.
    + unfold strip_good. rewrite strip_push_child. intros E'.
      apply sapp_eq_empty in E' as [_ E']. exfalso.
      exact (element_btfy0_nonempty _ _ _ E').
Qed.

(** C7 (as amended): when no tag name, attribute key or value and no text
    contains a newline, the [lined] rendering is the [btfy0] rendering with
    every newline deleted. *)
Theorem lined_is_btfy0_without_newlines (t : string) (items : rsx_tokens) :
  nl_free t = true -> tokens_nl_free items = true ->
  rsx lined false t items = strip_nl (rsx btfy0 false t items).
Proof.
  intros Ht Hi. unfold rsx. simpl style_mode.
  apply element_lined; [apply tokens_lined | exact Hi | exact Ht].
Qed.

Lemma lined_is_btfy0_without_newlines_witness :
  nl_free "ul" = true
  /\ tokens_nl_free [| Attr (str_key "x-data") "{ }"; Braced "a";
                       For "li" (Iter [| Lit "b" |] (Iter [| |] IterEnd)) |] = true
  /\ rsx lined false "ul" [| Attr (str_key "x-data") "{ }"; Braced "a";
                             For "li" (Iter [| Lit "b" |] (Iter [| |] IterEnd)) |]
     = strip_nl (rsx btfy0 false "ul" [| Attr (str_key "x-data") "{ }"; Braced "a";
                             For "li" (Iter [| Lit "b" |] (Iter [| |] IterEnd)) |]).
Proof.
  assert (Ht : nl_free "ul" = true) by reflexivity.
  assert (Hi : tokens_nl_free [| Attr (str_key "x-data") "{ }"; Braced "a";
                       For "li" (Iter [| Lit "b" |] (Iter [| |] IterEnd)) |] = true)
    by reflexivity.
  split; [exact Ht | split; [exact Hi | ]].
  exact (lined_is_btfy0_without_newlines _ _ Ht Hi).
Defined.

(** C7 as first stated fails when a text contains a newline: [lined] keeps
    it, deleting the newlines of [btfy0] removes it. *)
Lemma lined_btfy0_claim_fails :
  ~ (forall (t : string) (items : rsx_tokens),
       rsx lined false t items = strip_nl (rsx btfy0 false t items)).
Proof.
  intros H. specialize (H "p" [| Lit ("a" ++ nl_s ++ "b") |]).
  vm_compute in H. discriminate H.
Qed.

(** * Further properties of the renderer *)

(** ** Comma-free content *)

(** The content with every stray comma token (rule 7) deleted, at every
    depth. *)
Fixpoint item_drop_commas (i : rsx_item) : rsx_item :=
  match i with
  | Tag t c => Tag t (tokens_drop_commas c)
  | For it iters => For it (iters_drop_commas iters)
  | other => other
  end
with tokens_drop_commas (ts : rsx_tokens) : rsx_tokens :=
  match ts with
  | TEnd => TEnd
  | TCons Comma r => tokens_drop_commas r
  | TCons i r => TCons (item_drop_commas i) (tokens_drop_commas r)
  end
with iters_drop_commas (l : rsx_iterations) : rsx_iterations :=
  match l with
  | IterEnd => IterEnd
  | Iter ic l' => Iter (tokens_drop_commas ic) (iters_drop_commas l')
  end.

(** ** Helper lemmas *)

Lemma terminate_congr (m m' : Z) (d d' : nat) (t : string)
    (attrs : list (string * string)) (cs : list string) :
  nl m = nl m' -> indent m d = indent m' d' ->
  terminate m d t attrs cs = terminate m' d' t attrs cs.
Proof.
  intros Hn Hi. unfold terminate, inner_content. now rewrite Hn, Hi.
Qed.

(** Two modes and starting depths whose separators agree, and whose
    indentations agree at every depth below, give the same children. *)
Lemma children_of_congr (ts : rsx_tokens) :
  forall m m' d d', nl m = nl m' -> (forall k, indent m (d + k) = indent m' (d' + k)) ->
  children_of m d ts = children_of m' d' ts.
Proof.
  apply (rsx_tokens_mut
    (fun i => forall m m' d d', nl m = nl m' ->
       (forall k, indent m (d + k) = indent m' (d' + k)) ->
       item_child m d i = item_child m' d' i)
    (fun ts => forall m m' d d', nl m = nl m' ->
       (forall k, indent m (d + k) = indent m' (d' + k)) ->
       children_of m d ts = children_of m' d' ts)
    (fun l => forall m m' d d' it s, nl m = nl m' ->
       (forall k, indent m (d + k) = indent m' (d' + k)) ->
       for_loop m d it l s = for_loop m' d' it l s)).
  - reflexivity.
  - intros t c IH m m' d d' Hn Hi. simpl. rewrite !rsx_muncher_element.
    assert (Hi1 : forall k, indent m (d + 1 + k) = indent m' (d' + 1 + k)).
    { intros k. rewrite <- !Nat.add_assoc. apply Hi. }
    rewrite (IH m m' (d + 1) (d' + 1) Hn Hi1).
    rewrite (terminate_congr m m' (d + 1) (d' + 1)); [reflexivity | exact Hn | ].
    apply Hi.
  - intros it iters IH m m' d d' Hn Hi. simpl. now rewrite (IH m m' d d' it EmptyString Hn Hi).
  - intros text m m' d d' Hn Hi. simpl. now rewrite (Hi 1).
  - intros text m m' d d' Hn Hi. simpl. now rewrite (Hi 1).
  - reflexivity.
  - reflexivity.
  - intros i IHi r IHr m m' d d' Hn Hi. simpl.
    now rewrite (IHi m m' d d' Hn Hi), (IHr m m' d d' Hn Hi).
  - reflexivity.
  - intros ic IHic l IHl m m' d d' it s Hn Hi. simpl.
    rewrite !rsx_muncher_element.
    assert (Hi1 : forall k, indent m (d + 1 + k) = indent m' (d' + 1 + k)).
    { intros k. rewrite <- !Nat.add_assoc. apply Hi. }
    rewrite (IHic m m' (d + 1) (d' + 1) Hn Hi1).
    rewrite (terminate_congr m m' (d + 1) (d' + 1) it _ _ Hn (Hi 1)).
    rewrite Hn. apply (IHl m m' d d' it _ Hn Hi).
Qed.

Lemma rsx_muncher_congr (m m' : Z) (d d' : nat) (t : string) (ts : rsx_tokens) :
  nl m = nl m' -> (forall k, indent m (d + k) = indent m' (d' + k)) ->
  rsx_muncher m d t [] [] ts = rsx_muncher m' d' t [] [] ts.
Proof.
  intros Hn Hi. rewrite !rsx_muncher_element.
  rewrite (children_of_congr ts m m' d d' Hn Hi).
  apply terminate_congr; [exact Hn | ].
  rewrite <- (Nat.add_0_r d), <- (Nat.add_0_r d'). apply Hi.
Qed.

Lemma indent_other (m : Z) (d : nat) : m <> 2%Z -> m <> 4%Z -> indent m d = EmptyString.
Proof.
  intros H2 H4. unfold indent.
  destruct m as [ |p|p]; [reflexivity | |reflexivity].
  destruct p as [p|p| ]; [reflexivity | |reflexivity].
  destruct p as [p|p| ]; [reflexivity | |congruence].
  destruct p; [reflexivity|reflexivity|congruence].
Qed.

Lemma nl_nonpos (m : Z) : (m <= 0)%Z -> nl m = EmptyString.
Proof. intros H. unfold nl. destruct (Z.ltb_spec 0 m); [lia | reflexivity]. Qed.

Lemma nl_pos (m : Z) : (0 < m)%Z -> nl m = nl_s.
Proof. intros H. unfold nl. destruct (Z.ltb_spec 0 m); [reflexivity | lia]. Qed.

Lemma fold_push_all_empty (sep : string) (cs : list string) :
  Forall (fun c => c = EmptyString) cs -> fold_left (push_child sep) cs EmptyString = EmptyString.
Proof.
  induction 1 as [ |c cs Hc _ IH]; [reflexivity | ]. subst c. exact IH.
Qed.

Lemma sapp_cancel_l (a b c : string) : a ++ b = a ++ c -> b = c.
Proof. induction a as [ |x a IH]; simpl; [auto | intros H; injection H; auto]. Qed.

Lemma sapp_self_r (a b : string) : a ++ b = a -> b = EmptyString.
Proof.
  induction a as [ |x a IH]; simpl; [auto | intros H; injection H; auto].
Qed.

Lemma sapp_cancel_r (a b c : string) : a ++ c = b ++ c -> a = b.
Proof.
  intros H. apply (f_equal list_ascii_of_string) in H.
  rewrite !list_ascii_of_string_app in H. apply app_inv_tail in H.
  rewrite <- (string_of_list_ascii_of_string a), <- (string_of_list_ascii_of_string b).
  now rewrite H.
Qed.

Lemma replace_go_nomatch (from to s : string) :
  contains from s = false -> replace_go from to 0 s = s.
Proof.
  induction s as [ |c s IH]; [reflexivity | ].
  simpl. intros H. apply orb_false_iff in H as [Hp Hs].
  rewrite Hp. now rewrite IH.
Qed.

Lemma attrs_of_drop_commas (ts : rsx_tokens) : attrs_of (tokens_drop_commas ts) = attrs_of ts.
Proof. induction ts as [ |i r IH]; [reflexivity | ]. destruct i; simpl; now rewrite IH. Qed.

Lemma children_of_drop_commas (ts : rsx_tokens) :
  forall m d, children_of m d (tokens_drop_commas ts) = children_of m d ts.
Proof.
  apply (rsx_tokens_mut
    (fun i => forall m d, item_child m d (item_drop_commas i) = item_child m d i)
    (fun ts => forall m d, children_of m d (tokens_drop_commas ts) = children_of m d ts)
    (fun l => forall m d it s, for_loop m d it (iters_drop_commas l) s = for_loop m d it l s)).
  - reflexivity.
  - intros t c IH m d. simpl. rewrite !rsx_muncher_element, attrs_of_drop_commas.
    now rewrite IH.
  - intros it iters IH m d. simpl. now rewrite IH.
  - reflexivity.
  - reflexivity.
  - reflexivity.
  - reflexivity.
  - intros i IHi r IHr m d.
    destruct i; cbn [tokens_drop_commas children_of]; rewrite ?IHi, IHr; reflexivity.
  - reflexivity.
  - intros ic IHic l IHl m d it s. simpl. rewrite !rsx_muncher_element.
    rewrite attrs_of_drop_commas, IHic. apply IHl.
Qed.

(** ** Properties *)

(** Any mode [m <= 0] renders like [lined] (mode 0). *)
Theorem mode_nonpositive_is_lined (m : Z) (d : nat) (t : string) (ts : rsx_tokens) :
  (m <= 0)%Z -> rsx_muncher m d t [] [] ts = rsx_muncher 0 d t [] [] ts.
Proof.
  intros H. apply rsx_muncher_congr.
  - now rewrite nl_nonpos.
  - intros k. rewrite indent_other by lia. reflexivity.
Qed.

Lemma mode_nonpositive_is_lined_witness :
  (-3 <= 0)%Z
  /\ rsx_muncher (-3) 1 "p" [] [] [| Lit "a" |] = rsx_muncher 0 1 "p" [] [] [| Lit "a" |].
Proof. split; [lia | apply mode_nonpositive_is_lined; lia]. Defined.

(** Any positive mode other than 2 and 4 renders like [btfy0] (mode 1). *)
Theorem mode_positive_other_is_btfy0 (m : Z) (d : nat) (t : string) (ts : rsx_tokens) :
  (0 < m)%Z -> m <> 2%Z -> m <> 4%Z ->
  rsx_muncher m d t [] [] ts = rsx_muncher 1 d t [] [] ts.
Proof.
  intros H0 H2 H4. apply rsx_muncher_congr.
  - now rewrite !nl_pos by lia.
  - intros k. rewrite indent_other by assumption. reflexivity.
Qed.

Lemma mode_positive_other_is_btfy0_witness :
  (0 < 3)%Z /\ 3%Z <> 2%Z /\ 3%Z <> 4%Z
  /\ rsx_muncher 3 0 "p" [] [] [| Lit "a" |] = rsx_muncher 1 0 "p" [] [] [| Lit "a" |].
Proof.
  split; [lia | split; [lia | split; [lia | ]]].
  apply mode_positive_other_is_btfy0; lia.
Defined.

(** Outside modes 2 and 4 nothing is indented, so the starting depth does
    not change the output. *)
Theorem depth_irrelevant_unindented (m : Z) (d d' : nat) (t : string) (ts : rsx_tokens) :
  m <> 2%Z -> m <> 4%Z -> rsx_muncher m d t [] [] ts = rsx_muncher m d' t [] [] ts.
Proof.
  intros H2 H4. apply rsx_muncher_congr; [reflexivity | ].
  intros k. now rewrite !indent_other.
Qed.

Lemma depth_irrelevant_unindented_witness :
  1%Z <> 2%Z /\ 1%Z <> 4%Z
  /\ rsx_muncher 1 5 "p" [] [] [| Lit "a" |] = rsx_muncher 1 0 "p" [] [] [| Lit "a" |].
Proof. split; [lia | split; [lia | ]]. apply depth_irrelevant_unindented; lia. Defined.


(** An attribute may be written after a non-attribute token instead of
    before it: the output is the same, the attribute still goes into the
    opening tag. *)
Theorem attribute_after_child (m : Z) (d : nat) (t : string)
    (attrs : list (string * string)) (children : list string)
    (k : attr_key) (v : string) (i : rsx_item) (rest : rsx_tokens) :
  (forall k' v', i <> Attr k' v') ->
  rsx_muncher m d t attrs children (TCons (Attr k v) (TCons i rest))
  = rsx_muncher m d t attrs children (TCons i (TCons (Attr k v) rest)).
Proof.
  intros H. rewrite !rsx_muncher_terminate.
  destruct i; [exfalso; eapply H; reflexivity | ..]; reflexivity.
Qed.

Lemma attribute_after_child_witness :
  (forall k' v', Tag "h1" [| Lit "Hi" |] <> Attr k' v')
  /\ rsx_muncher 2 0 "body" [] [] [| Attr (KeyIdent "id") "b"; Tag "h1" [| Lit "Hi" |] |]
     = rsx_muncher 2 0 "body" [] [] [| Tag "h1" [| Lit "Hi" |]; Attr (KeyIdent "id") "b" |].
Proof.
  split; [intros k' v'; discriminate | ].
  apply attribute_after_child. intros k' v'; discriminate.
Defined.

(** Comma tokens never change the output, at any depth. *)
Theorem commas_ignored (m : Z) (d : nat) (t : string) (ts : rsx_tokens) :
  rsx_muncher m d t [] [] (tokens_drop_commas ts) = rsx_muncher m d t [] [] ts.
Proof.
  rewrite !rsx_muncher_element, attrs_of_drop_commas, children_of_drop_commas.
  reflexivity.
Qed.

(** A non-void element whose child strings are all empty (for instance a
    single loop over an empty collection) renders as a childless element. *)
Theorem empty_children_render_childless (m : Z) (d : nat) (t : string) (items : rsx_tokens) :
  is_void t = false ->
  Forall (fun c => c = EmptyString) (children_of m d items) ->
  rsx_muncher m d t [] [] items
  = indent m d ++ "<" ++ t ++ attr_string (attrs_of items) ++ "></" ++ t ++ ">".
Proof.
  intros Hv He. rewrite rsx_muncher_element. unfold terminate, inner_content.
  now rewrite Hv, fold_push_all_empty.
Qed.

Lemma empty_children_render_childless_witness :
  is_void "ul" = false
  /\ Forall (fun c => c = EmptyString) (children_of 2 0 [| For "li" IterEnd |])
  /\ rsx_muncher 2 0 "ul" [] [] [| For "li" IterEnd |] = "<ul></ul>".
Proof.
  split; [reflexivity | split; [repeat constructor | ]].
  apply empty_children_render_childless; [reflexivity | repeat constructor].
Defined.

(** In an indented mode, a loop over an empty collection between two tags
    still adds a separator: the two tags end up with an empty line between
    them. *)
Theorem empty_loop_blank_line (m : Z) (d : nat) (t x it y : string) (c1 c2 : rsx_tokens) :
  (0 < m)%Z -> is_void t = false ->
  rsx_muncher m d t [] [] [| Tag x c1; For it IterEnd; Tag y c2 |]
  = indent m d ++ "<" ++ t ++ ">" ++ nl_s
    ++ rsx_muncher m (d + 1) x [] [] c1 ++ nl_s ++ nl_s
    ++ rsx_muncher m (d + 1) y [] [] c2 ++ nl_s ++ indent m d ++ "</" ++ t ++ ">".
Proof.
  intros Hm Hv. rewrite rsx_muncher_element at 1.
  cbn [attrs_of children_of item_child app for_loop].
  pose proof (rsx_muncher_nonempty m (d + 1) x c1) as HA.
  generalize (rsx_muncher m (d + 1) y [] [] c2) as B.
  revert HA. generalize (rsx_muncher m (d + 1) x [] [] c1) as A. intros A HA B.
  unfold terminate, inner_content, attr_string. cbn [fold_left].
  rewrite (nl_pos m Hm), Hv, push_child_empty.
  rewrite (push_child_nonempty nl_s A) by exact HA.
  rewrite (push_child_nonempty nl_s (A ++ nl_s ++ EmptyString)) by apply sapp_neq_empty_l, HA.
  rewrite sapp_nil_r.
  destruct (String.eqb_spec ((A ++ nl_s) ++ nl_s ++ B) EmptyString) as [E|_].
  - exfalso. apply sapp_eq_empty in E as [E _]. now apply sapp_eq_empty in E as [E _].
  - simpl. now rewrite <- !sapp_assoc.
Qed.

Lemma empty_loop_blank_line_witness :
  (0 < 2)%Z /\ is_void "ul" = false
  /\ rsx_muncher 2 0 "ul" [] [] [| Tag "li" [| Lit "a" |]; For "li" IterEnd; Tag "li" [| Lit "b" |] |]
     = "<ul>" ++ nl_s ++ "  <li>" ++ nl_s ++ "    a" ++ nl_s ++ "  </li>" ++ nl_s ++ nl_s
       ++ "  <li>" ++ nl_s ++ "    b" ++ nl_s ++ "  </li>" ++ nl_s ++ "</ul>".
Proof.
  split; [lia | split; [reflexivity | ]].
  rewrite (empty_loop_blank_line 2 0 "ul" "li" "li" "li"); [reflexivity | lia | reflexivity].
Defined.

(** Every non-empty child string of an element at depth [d] starts with the
    indentation of depth [d + 1]. *)
Theorem children_indented (m : Z) (d : nat) (items : rsx_tokens) :
  Forall (fun c => c = EmptyString \/ exists r, c = indent m (d + 1) ++ r)
    (children_of m d items).
Proof.
  induction items as [ |i r IH]; [constructor | ]. simpl.
  apply Forall_app. split; [ | exact IH].
  destruct i as [k v|t c|it l|text|text| ]; cbn [item_child];
    [constructor | apply Forall_cons; [ | constructor] ..| constructor].
  - right. destruct (rsx_muncher_shape m (d + 1) t c) as [s ->]. eexists; reflexivity.
  - destruct l as [ |ic l]; [left; reflexivity | right]. cbn [for_loop].
    rewrite push_child_empty, for_loop_bodies, fold_push_nonempty
      by apply rsx_muncher_nonempty.
    destruct (rsx_muncher_shape m (d + 1) it ic) as [s ->].
    eexists. now rewrite <- sapp_assoc.
  - right. eexists; reflexivity.
  - right. eexists; reflexivity.
Qed.

(** A value written between double quotes never contains a double quote. *)
Theorem double_quoted_value_has_no_quote (k v v' : string) :
  render_attr k v = " " ++ trim_matches_dq k ++ "=" ++ dq_s ++ v' ++ dq_s ->
  v' = v /\ contains dq_s v = false.
Proof.
  unfold render_attr. generalize (trim_matches_dq k) as key. intros key H.
  destruct (String.eqb_spec v "true") as [Ht|Ht].
  - simpl in H. injection H as H.
    symmetry in H. apply sapp_self_r in H. discriminate H.
  - destruct (String.eqb_spec v "false") as [Hf|Hf]; simpl in H; [discriminate H | ].
    destruct (_ || _) eqn:E.
    + injection H as H. apply sapp_cancel_l in H.
      unfold dq_s, dq in H. simpl in H. discriminate H.
    + injection H as H. apply sapp_cancel_l in H.
      simpl in H. injection H as H. apply sapp_cancel_r in H.
      split; [now symmetry | ].
      rewrite !orb_false_iff in E. tauto.
Qed.

Lemma double_quoted_value_has_no_quote_witness :
  render_attr "class" "main" = " " ++ trim_matches_dq "class" ++ "=" ++ dq_s ++ "main" ++ dq_s
  /\ "main" = "main" /\ contains dq_s "main" = false.
Proof.
  split; [reflexivity | ].
  apply (double_quoted_value_has_no_quote "class" "main" "main"). reflexivity.
Defined.

(** A single-quoted value with no escaped double quote in it is written
    verbatim: a single quote inside it is not escaped. *)
Theorem single_quoted_verbatim (k v : string) :
  v <> "true" -> v <> "false" -> contains bs_dq v = false ->
  (starts_with ":" (trim_matches_dq k) || starts_with "@" (trim_matches_dq k)
   || starts_with "x-" (trim_matches_dq k) || starts_with "hx-" (trim_matches_dq k)
   || contains dq_s v) = true ->
  render_attr k v = " " ++ trim_matches_dq k ++ "='" ++ v ++ "'".
Proof.
  intros Ht Hf Hb Hq. unfold render_attr.
  destruct (String.eqb_spec v "true"); [contradiction | ].
  destruct (String.eqb_spec v "false"); [contradiction | ]. simpl.
  rewrite Hq. simpl. unfold replace. now rewrite replace_go_nomatch.
Qed.

Lemma single_quoted_verbatim_witness :
  render_attr "x-text" "it's" = " x-text='it's'".
Proof.
  apply single_quoted_verbatim; [discriminate | discriminate | reflexivity | reflexivity].
Defined.

(** A loop over a non-empty collection, at any place among the content,
    renders as its iterations written out as sibling tags. *)
Theorem nonempty_loop_as_siblings (m : Z) (d : nat) (tag : string)
    (attrs : list (string * string)) (children : list string)
    (it : string) (l : rsx_iterations) (rest : rsx_tokens) :
  l <> IterEnd ->
  rsx_muncher m d tag attrs children (TCons (For it l) rest)
  = rsx_muncher m d tag attrs children (unroll it l rest).
Proof. apply rsx_muncher_for_unroll. Qed.

Lemma nonempty_loop_as_siblings_witness :
  Iter [| Lit "a" |] IterEnd <> IterEnd
  /\ rsx_muncher 4 0 "ul" [] [] [| For "li" (Iter [| Lit "a" |] IterEnd); Lit "z" |]
     = rsx_muncher 4 0 "ul" [] [] [| Tag "li" [| Lit "a" |]; Lit "z" |].
Proof.
  split; [discriminate | ].
  apply (nonempty_loop_as_siblings 4 0 "ul" [] [] "li" (Iter [| Lit "a" |] IterEnd)).
  discriminate.
Defined.
